(** * A shallow embedding of rpc4django/rpcdispatcher.py

    The module keeps a list of [RPCMethod] descriptors inside an
    [RPCDispatcher], answers the four introspection procedures and peeks at
    the method name of a raw request.  Python objects are modelled as
    records, Python exceptions as the [Raise] branch of [result]. *)

From Stdlib Require Import List String Ascii ZArith Bool Lia.
From Stdlib Require Import Permutation Sorting.Sorted.
Import ListNotations.
Open Scope string_scope.
Set Warnings "-register-all".

(** ** Python values and exceptions *)

(** The Python values the introspection procedures return. *)
Inductive pyval : Type :=
| PNone
| PStr (s : string)
| PList (l : list pyval)
| PTuple (l : list pyval)
| PDict (kvs : list (string * pyval)).

(** The exceptions raised on the paths the module has. *)
Inductive py_exc : Type :=
| Fault (faultCode : Z) (faultString : string)   (* xmlrpclib.Fault *)
| ValueError
| TypeError
| ExpatError.                                    (* malformed XML *)

Inductive result (A : Type) : Type :=
| Ok (a : A)
| Raise (e : py_exc).
Arguments Ok {A} a.
Arguments Raise {A} e.

Definition bind {A B} (r : result A) (k : A -> result B) : result B :=
  match r with
  | Ok a => k a
  | Raise e => Raise e
  end.

Notation "x <- r ;; k" := (bind r (fun x => k))
  (at level 61, r at next level, right associativity).

(** [APPLICATION_ERROR = -32500] *)
Definition APPLICATION_ERROR : Z := -32500.

(** ** Callables

    What [RPCMethod.__init__] reads from a Python callable: its
    [func_name], what [inspect.getargspec] returns for its formal
    parameters ([None] when getargspec raises [TypeError], e.g. on a
    builtin), what [pydoc.getdoc] returns, and the attributes the
    [@rpcmethod] decorator attaches ([None] when the attribute is absent). *)
Record callable : Type := mkCallable {
  c_id : nat;                          (* object identity *)
  func_name : string;
  argspec_args : option (list string);
  getdoc : string;
  external_name : option string;
  c_signature : option (list string);
  c_permission : option string
}.

(** [rpcmethod(kwargs)]: the decorator.  The keyword arguments are
    modelled as options ([None] when the key is not in kwargs). *)
Definition rpcmethod (kw_name : option string) (kw_signature : option (list string))
  (kw_permission : option string) (method : callable) : callable :=
  {| c_id := c_id method;
     func_name := func_name method;
     argspec_args := argspec_args method;
     getdoc := getdoc method;
     external_name :=
       match kw_name with Some n => Some n | None => Some (func_name method) end;
     c_signature :=
       match kw_signature with Some s => Some s | None => Some [] end;
     c_permission := kw_permission |}.

(** ** RPCMethod *)

Record RPCMethod : Type := mkRPCMethod {
  method : callable;
  help : string;
  signature : list string;
  name : string;
  permission : option string;
  args : list string
}.

Definition is_not_self (a : string) : bool := negb (String.eqb a "self").

(** [RPCMethod.__init__(self, method, name=None, signature=None,
    docstring=None)] *)
Definition RPCMethod_init (m : callable) (name_ : option string)
  (signature_ : option (list string)) (docstring : option string)
  : result RPCMethod :=
  let nm :=
    match external_name m with
    | Some e => e
    | None => match name_ with Some n => n | None => func_name m end
    end in
  let hlp := match docstring with Some d => d | None => getdoc m end in
  let perm := c_permission m in
  match argspec_args m with
  | None => Raise TypeError
  | Some all_args =>
      let args_ := filter is_not_self all_args in
      let default_sig := "object" :: map (fun _ => "object") args_ in
      let sig :=
        match c_signature m with
        | Some ms =>
            if Nat.eqb (List.length ms) (List.length args_ + 1) then ms
            else match signature_ with
                 | Some s => if Nat.eqb (List.length args_ + 1) (List.length s) then s
                             else default_sig
                 | None => default_sig
                 end
        | None =>
            match signature_ with
            | Some s => if Nat.eqb (List.length args_ + 1) (List.length s) then s
                        else default_sig
            | None => default_sig
            end
        end in
      Ok {| method := m; help := hlp; signature := sig; name := nm;
            permission := perm; args := args_ |}
  end.

(** [RPCMethod.get_returnvalue] *)
Definition get_returnvalue (r : RPCMethod) : option string :=
  match signature r with
  | t :: _ => Some t
  | [] => None
  end.

(** One [{'name': ..., 'rpctype': ...}] dictionary of [get_params]. *)
Definition param_dict (n t : string) : pyval :=
  PDict [("name", PStr n); ("rpctype", PStr t)].

(** [RPCMethod.get_params]: [range(len(self.args))] with
    [self.signature[argnum+1]]; the index is in range on this branch. *)
Definition get_params (r : RPCMethod) : list pyval :=
  if Nat.ltb 0 (List.length (signature r)) then
    if Nat.eqb (List.length (signature r)) (List.length (args r) + 1) then
      map (fun p => param_dict (fst p) (snd p))
          (combine (args r) (tl (signature r)))
    else
      map (fun a => param_dict a "object") (args r)
  else [].

(** ** RPCDispatcher *)

(** [list.sort()] on a list of strings: Python 2 compares byte strings
    lexicographically, which is [String.leb].  The result of a sort under
    a total order does not depend on the algorithm; insertion sort is
    used here. *)
Fixpoint insert_sorted (x : string) (l : list string) : list string :=
  match l with
  | [] => [x]
  | y :: l' => if String.leb x y then x :: l else y :: insert_sorted x l'
  end.

Fixpoint sort (l : list string) : list string :=
  match l with
  | [] => []
  | x :: l' => insert_sorted x (sort l')
  end.

(** The attributes of an [RPCDispatcher].  [xml_registered] and
    [json_registered] record the [register_function(method, name)] calls
    made on the two protocol dispatchers, in call order. *)
Record RPCDispatcher : Type := mkRPCDispatcher {
  url : string;
  rpcmethods : list RPCMethod;
  xml_registered : list (callable * string);
  json_registered : list (callable * string)
}.

(** [RPCDispatcher.system_listmethods] *)
Definition system_listmethods (d : RPCDispatcher) : list string :=
  sort (map name (rpcmethods d)).

(** [RPCDispatcher.register_method(method, name=None, signature=None,
    helpmsg=None)] *)
Definition register_method (d : RPCDispatcher) (m : callable)
  (name_ : option string) (signature_ : option (list string))
  (helpmsg : option string) : result RPCDispatcher :=
  meth <- RPCMethod_init m name_ signature_ helpmsg ;;
  if existsb (String.eqb (name meth)) (system_listmethods d) then Ok d
  else Ok {| url := url d;
             xml_registered := xml_registered d ++ [(m, name meth)];
             json_registered := json_registered d ++ [(m, name meth)];
             rpcmethods := rpcmethods d ++ [meth] |}.

(** The arguments of one [register_method] call. *)
Record registration : Type := mkRegistration {
  reg_method : callable;
  reg_name : option string;
  reg_signature : option (list string);
  reg_helpmsg : option string
}.

(** A sequence of [register_method] calls; the first exception
    propagates. *)
Fixpoint register_all (d : RPCDispatcher) (regs : list registration)
  : result RPCDispatcher :=
  match regs with
  | [] => Ok d
  | r :: rs =>
      d' <- register_method d (reg_method r) (reg_name r)
              (reg_signature r) (reg_helpmsg r) ;;
      register_all d' rs
  end.

(** The [for method in self.rpcmethods: if method.name == method_name]
    loop of [system_methodhelp] and [system_methodsignature]. *)
Fixpoint find_method (n : string) (l : list RPCMethod) : option RPCMethod :=
  match l with
  | [] => None
  | m :: l' => if String.eqb (name m) n then Some m else find_method n l'
  end.

Definition no_method_fault (method_name : string) : py_exc :=
  Fault APPLICATION_ERROR ("No method found with name: " ++ method_name).

(** [RPCDispatcher.system_methodhelp] *)
Definition system_methodhelp (d : RPCDispatcher) (method_name : string)
  : result string :=
  match find_method method_name (rpcmethods d) with
  | Some m => Ok (help m)
  | None => Raise (no_method_fault method_name)
  end.

(** [RPCDispatcher.system_methodsignature] *)
Definition system_methodsignature (d : RPCDispatcher) (method_name : string)
  : result (list string) :=
  match find_method method_name (rpcmethods d) with
  | Some m => Ok (signature m)
  | None => Raise (no_method_fault method_name)
  end.

Definition option_str (o : option string) : pyval :=
  match o with Some s => PStr s | None => PNone end.

(** [RPCDispatcher.system_describe].  The source line
    [description['serviceURL'] = self.url,] ends in a comma, so the value
    stored is the one-element tuple [(self.url,)]. *)
Definition system_describe (d : RPCDispatcher) : pyval :=
  PDict [("serviceType", PStr "RPC4Django JSONRPC+XMLRPC");
         ("serviceURL", PTuple [PStr (url d)]);
         ("methods",
           PList (map (fun m => PDict [("name", PStr (name m));
                                        ("summary", PStr (help m));
                                        ("params", PList (get_params m));
                                        ("return", option_str (get_returnvalue m))])
                      (rpcmethods d)))].

(** ** get_method_name *)

(** What [json.loads] returns. *)
Inductive json : Type :=
| JNull
| JBool (b : bool)
| JNum (z : Z)
| JStr (s : string)
| JArr (l : list json)
| JObj (kvs : list (string * json)).

(** [key in d] and [d[key]] on the dict [json.loads] builds from an object:
    a repeated key keeps its last value. *)
Definition dict_lookup (k : string) (kvs : list (string * json)) : option json :=
  fold_left (fun acc kv => if String.eqb (fst kv) k then Some (snd kv) else acc)
            kvs None.

Section GetMethodName.
(** The two library decoders the method calls: [xmlrpclib.loads] returns
    [(params, methodname)], [json.loads] a JSON value; both may raise. *)
Variable xmlrpclib_loads : string -> result (list pyval * option string).
Variable json_loads : string -> result json.

(** [RPCDispatcher.get_method_name(raw_post_data, request_format='xml')].
    The result is [None] or the returned value; an XML method name is a
    string, written [JStr]. *)
Definition get_method_name (raw_post_data : string) (request_format : string)
  : result (option json) :=
  if String.eqb request_format "xml" then
    match xmlrpclib_loads raw_post_data with
    | Ok (_, meth) => Ok (option_map JStr meth)
    | Raise (Fault _ _) => Ok None
    | Raise e => Raise e
    end
  else
    match json_loads raw_post_data with
    | Ok (JObj kvs) =>
        match dict_lookup "method" kvs with
        | None => Ok None
        | Some v => Ok (Some v)
        end
    | Ok _ => Ok None
    | Raise ValueError => Ok None
    | Raise e => Raise e
    end.
End GetMethodName.

(** ** get_stub *)

(** The double-quote character and the newline character. *)
Definition dq : string := String (ascii_of_nat 34) EmptyString.
Definition nl : string := String (ascii_of_nat 10) EmptyString.

(** [sep.join(l)] *)
Fixpoint join (sep : string) (l : list string) : string :=
  match l with
  | [] => ""
  | [x] => x
  | x :: l' => x ++ sep ++ join sep l'
  end.

(** [param['name']] on a dictionary built by [param_dict]; [get_params]
    builds no other kind of entry. *)
Definition param_name (p : pyval) : string :=
  match p with
  | PDict (("name", PStr n) :: _) => n
  | _ => ""
  end.

(** [RPCMethod.get_stub] *)
Definition get_stub (r : RPCMethod) : string :=
  let plist := map (fun p => dq ++ param_name p ++ dq) (get_params r) in
  join nl ["{";
           dq ++ "id" ++ dq ++ ": " ++ dq ++ "djangorpc" ++ dq ++ ",";
           dq ++ "method" ++ dq ++ ": " ++ dq ++ name r ++ dq ++ ",";
           dq ++ "params" ++ dq ++ ": [";
           "   " ++ join "," plist;
           "]";
           "}"].

(** ** RPCDispatcher.__init__ *)

(** The four introspection procedures, as the bound methods
    [self.system_listmethods], ... that [__init__] registers: getargspec
    lists [self], the [@rpcmethod] decorator of the class body set their
    external name and signature, and [pydoc.getdoc] gives the docstring. *)
Definition sys_method (id : nat) (fname ext doc : string) (params sig : list string)
  : callable :=
  rpcmethod (Some ext) (Some sig) None
    {| c_id := id; func_name := fname; argspec_args := Some ("self" :: params);
       getdoc := doc; external_name := None; c_signature := None;
       c_permission := None |}.

Definition system_listmethods_fn : callable :=
  sys_method 101 "system_listmethods" "system.listMethods"
    "Returns a list of supported methods" [] ["array"].
Definition system_methodhelp_fn : callable :=
  sys_method 102 "system_methodhelp" "system.methodHelp"
    "Returns documentation for a specified method" ["method_name"]
    ["string"; "string"].
Definition system_methodsignature_fn : callable :=
  sys_method 103 "system_methodsignature" "system.methodSignature"
    "Returns the signature for a specified method" ["method_name"]
    ["array"; "string"].
Definition system_describe_fn : callable :=
  sys_method 104 "system_describe" "system.describe"
    "Returns a simple method description of the methods supported" []
    ["struct"].

(** [RPCDispatcher(url, apps=[], restrict_introspection)]: with the
    default [apps=[]], [register_rpcmethods(apps)] registers nothing. *)
Definition RPCDispatcher_init (url_ : string) (restrict_introspection : bool)
  : result RPCDispatcher :=
  let d0 := {| url := url_; rpcmethods := []; xml_registered := [];
               json_registered := [] |} in
  if restrict_introspection then Ok d0
  else
    d1 <- register_method d0 system_listmethods_fn None None None ;;
    d2 <- register_method d1 system_methodhelp_fn None None None ;;
    d3 <- register_method d2 system_methodsignature_fn None None None ;;
    register_method d3 system_describe_fn None None None.

(** ** Invariants *)

(** The descriptor list, [xmlrpcdispatcher] and [jsonrpcdispatcher] hold
    the same (callable, name) pairs, in the same order. *)
Definition registered_in_sync (d : RPCDispatcher) : Prop :=
  xml_registered d = map (fun r => (method r, name r)) (rpcmethods d) /\
  json_registered d = map (fun r => (method r, name r)) (rpcmethods d).

(** The length invariant of one descriptor. *)
Definition sig_ok (r : RPCMethod) : Prop :=
  List.length (signature r) = List.length (args r) + 1.

(** * Facts about the model *)

(** ** String order and sorting *)

Definition str_le (a b : string) : Prop := String.leb a b = true.

Lemma str_leb_compare (a b : string) :
  String.leb a b = true <-> String.compare a b <> Gt.
Proof.
  unfold String.leb; destruct (String.compare a b); split; congruence.
Qed.

Lemma str_compare_trans_le (s1 s2 s3 : string) :
  String.compare s1 s2 <> Gt -> String.compare s2 s3 <> Gt ->
  String.compare s1 s3 <> Gt.
Proof.
  revert s2 s3; induction s1 as [|a s1 IH]; intros [|b s2] [|c s3];
    simpl; try congruence.
  unfold Ascii.compare.
  destruct (N.compare_spec (N_of_ascii a) (N_of_ascii b));
  destruct (N.compare_spec (N_of_ascii b) (N_of_ascii c));
  destruct (N.compare_spec (N_of_ascii a) (N_of_ascii c));
  try congruence; try lia; eauto.
Qed.

Lemma str_le_trans (a b c : string) : str_le a b -> str_le b c -> str_le a c.
Proof.
  unfold str_le; rewrite !str_leb_compare; apply str_compare_trans_le.
Qed.

Lemma str_le_total (a b : string) : str_le a b \/ str_le b a.
Proof. apply String.leb_total. Qed.

Lemma str_le_antisym (a b : string) : str_le a b -> str_le b a -> a = b.
Proof. apply String.leb_antisym. Qed.

Lemma insert_sorted_perm (x : string) (l : list string) :
  Permutation (insert_sorted x l) (x :: l).
Proof.
  induction l as [|y l IH]; simpl; [reflexivity|].
  destruct (String.leb x y); [reflexivity|].
  rewrite IH; apply perm_swap.
Qed.

Lemma sort_perm (l : list string) : Permutation (sort l) l.
Proof.
  induction l as [|x l IH]; simpl; [reflexivity|].
  rewrite insert_sorted_perm, IH; reflexivity.
Qed.

Lemma insert_sorted_HdRel (x y : string) (l : list string) :
  str_le y x -> HdRel str_le y l -> HdRel str_le y (insert_sorted x l).
Proof.
  intros Hyx Hd; destruct l as [|z l]; simpl.
  - constructor; exact Hyx.
  - destruct (String.leb x z); constructor; [exact Hyx|].
    inversion Hd; assumption.
Qed.

Lemma insert_sorted_Sorted (x : string) (l : list string) :
  Sorted str_le l -> Sorted str_le (insert_sorted x l).
Proof.
  induction l as [|y l IH]; intros Hs; simpl.
  - repeat constructor.
  - destruct (String.leb x y) eqn:Exy.
    + constructor; [exact Hs | constructor; exact Exy].
    + inversion Hs as [|? ? Hl Hd]; subst.
      constructor; [apply IH; exact Hl|].
      apply insert_sorted_HdRel; [|exact Hd].
      destruct (str_le_total x y) as [H|H]; [unfold str_le in H; congruence|exact H].
Qed.

Lemma sort_Sorted (l : list string) : Sorted str_le (sort l).
Proof.
  induction l as [|x l IH]; simpl; [constructor|].
  apply insert_sorted_Sorted; exact IH.
Qed.

(** Two sorted lists with the same elements are equal. *)
Lemma Sorted_Permutation_eq (l1 l2 : list string) :
  Sorted str_le l1 -> Sorted str_le l2 -> Permutation l1 l2 -> l1 = l2.
Proof.
  intros H1 H2; apply Sorted_StronglySorted in H1; [|exact str_le_trans].
  apply Sorted_StronglySorted in H2; [|exact str_le_trans].
  revert l2 H2; induction H1 as [|a l1 Hs1 IH Hall1]; intros l2 H2 Hp.
  - symmetry; apply Permutation_nil; exact Hp.
  - destruct l2 as [|b l2].
    { apply Permutation_sym, Permutation_nil in Hp; discriminate. }
    inversion H2 as [|? ? Hs2 Hall2]; subst.
    assert (a = b) as <-.
    { assert (In b (a :: l1)) as [Hb|Hb]
        by (apply (Permutation_in b (Permutation_sym Hp)); left; reflexivity).
      - exact Hb.
      - assert (In a (b :: l2)) as [Ha|Ha]
          by (apply (Permutation_in a Hp); left; reflexivity).
        + symmetry; exact Ha.
        + apply str_le_antisym.
          * rewrite Forall_forall in Hall1; apply Hall1; exact Hb.
          * rewrite Forall_forall in Hall2; apply Hall2; exact Ha. }
    f_equal; apply IH; [exact Hs2|].
    apply Permutation_cons_inv in Hp; exact Hp.
Qed.

Lemma sort_Permutation_eq (l1 l2 : list string) :
  Permutation l1 l2 -> sort l1 = sort l2.
Proof.
  intros Hp; apply Sorted_Permutation_eq; try apply sort_Sorted.
  rewrite !sort_perm; exact Hp.
Qed.

Lemma in_sort (x : string) (l : list string) : In x (sort l) <-> In x l.
Proof.
  split; apply Permutation_in; [|symmetry]; apply sort_perm.
Qed.

Lemma map_const_repeat {A} (c : string) (l : list A) :
  map (fun _ => c) l = repeat c (List.length l).
Proof. induction l; simpl; congruence. Qed.

(** ** The registry *)

Definition names (d : RPCDispatcher) : list string := map name (rpcmethods d).

(** The name a registration resolves to, when its descriptor is built. *)
Definition resolved_name (r : registration) : option string :=
  match RPCMethod_init (reg_method r) (reg_name r) (reg_signature r) (reg_helpmsg r) with
  | Ok meth => Some (name meth)
  | Raise _ => None
  end.

Lemma existsb_eqb_In (x : string) (l : list string) :
  existsb (String.eqb x) l = true <-> In x l.
Proof.
  rewrite existsb_exists; split.
  - intros (y & Hy & E); apply String.eqb_eq in E; subst; exact Hy.
  - intros H; exists x; split; [exact H | apply String.eqb_refl].
Qed.

Lemma register_method_cases (d d' : RPCDispatcher) m n s h :
  register_method d m n s h = Ok d' ->
  exists meth, RPCMethod_init m n s h = Ok meth /\
    ((In (name meth) (names d) /\ d' = d) \/
     (~ In (name meth) (names d) /\ rpcmethods d' = (rpcmethods d ++ [meth])%list)).
Proof.
  unfold register_method, bind.
  destruct (RPCMethod_init m n s h) as [meth|e]; [|discriminate].
  intros H; exists meth; split; [reflexivity|].
  unfold system_listmethods in H.
  destruct (existsb (String.eqb (name meth)) (sort (map name (rpcmethods d)))) eqn:E.
  - left; injection H as <-; split; [|reflexivity].
    rewrite existsb_eqb_In, in_sort in E; exact E.
  - right; injection H as <-; split; [|reflexivity].
    intros Hin; unfold names in Hin; rewrite <- in_sort, <- existsb_eqb_In in Hin; congruence.
Qed.

(** The names a sequence of registrations adds: new, pairwise distinct,
    and exactly the resolved names not yet present. *)
Lemma register_all_names (d0 d : RPCDispatcher) (regs : list registration) :
  register_all d0 regs = Ok d ->
  exists L, names d = (names d0 ++ L)%list /\ NoDup L /\
    (forall x, In x L -> ~ In x (names d0)) /\
    (forall x, In x (names d) <->
               In x (names d0) \/ exists r, In r regs /\ resolved_name r = Some x).
Proof.
  revert d0; induction regs as [|r rs IH]; intros d0 H; simpl in H.
  - injection H as <-; exists []; rewrite app_nil_r.
    split; [reflexivity|]; split; [constructor|]; split; [intros x []|].
    intros x; split; [left; exact H | intros [Hx|(r & [] & _)]; exact Hx].
  - destruct (register_method d0 (reg_method r) (reg_name r) (reg_signature r)
                (reg_helpmsg r)) as [d1|e] eqn:E1; [|discriminate]; simpl in H.
    destruct (IH d1 H) as (L & Hn & Hnd & Hfresh & Hset).
    assert (Hres : forall meth, RPCMethod_init (reg_method r) (reg_name r)
                     (reg_signature r) (reg_helpmsg r) = Ok meth ->
                     resolved_name r = Some (name meth))
      by (intros meth Hm; unfold resolved_name; rewrite Hm; reflexivity).
    apply register_method_cases in E1 as (meth & Hm & [(Hin & ->)|(Hnin & Hd1)]).
    + exists L; split; [exact Hn|]; split; [exact Hnd|]; split; [exact Hfresh|].
      intros x; rewrite Hset; split.
      * intros [Hx|(r' & Hr' & Hx)]; [left; exact Hx|right; exists r'; simpl; auto].
      * intros [Hx|(r' & [<-|Hr'] & Hx)]; [left; exact Hx| |right; exists r'; auto].
        left; apply Hres in Hm; rewrite Hm in Hx; injection Hx as <-; exact Hin.
    + assert (Hn1 : names d1 = (names d0 ++ [name meth])%list)
        by (unfold names; rewrite Hd1, map_app; reflexivity).
      exists (name meth :: L); split.
      { rewrite Hn, Hn1, <- app_assoc; reflexivity. }
      split; [|split].
      * constructor; [|exact Hnd].
        intros HL; apply (Hfresh _ HL); rewrite Hn1; apply in_or_app; right; left; reflexivity.
      * intros x [<-|Hx]; [exact Hnin|].
        intros H0; apply (Hfresh _ Hx); rewrite Hn1; apply in_or_app; left; exact H0.
      * intros x; rewrite Hset, Hn1, in_app_iff; simpl; split.
        -- intros [[Hx|[<-|[]]]|(r' & Hr' & Hx)]; [left; exact Hx| |].
           ++ right; exists r; split; [left; reflexivity | apply Hres; exact Hm].
           ++ right; exists r'; split; [right; exact Hr' | exact Hx].
        -- intros [Hx|(r' & [<-|Hr'] & Hx)]; [left; left; exact Hx| |].
           ++ left; right; left; apply Hres in Hm; rewrite Hm in Hx; congruence.
           ++ right; exists r'; split; [exact Hr' | exact Hx].
Qed.

Lemma register_all_NoDup (d0 d : RPCDispatcher) (regs : list registration) :
  NoDup (names d0) -> register_all d0 regs = Ok d -> NoDup (names d).
Proof.
  intros H0 H; destruct (register_all_names d0 d regs H) as (L & -> & HL & Hf & _).
  apply NoDup_app; [exact H0|exact HL|].
  intros x Hx HxL; exact (Hf x HxL Hx).
Qed.

(** Two permuted sequences of successful registrations reach the same
    set of names. *)
Lemma register_all_perm_names (d0 d1 d2 : RPCDispatcher) (regs1 regs2 : list registration) :
  Permutation regs1 regs2 ->
  register_all d0 regs1 = Ok d1 -> register_all d0 regs2 = Ok d2 ->
  Permutation (names d1) (names d2).
Proof.
  intros Hp H1 H2.
  destruct (register_all_names d0 d1 regs1 H1) as (L1 & Hn1 & Hnd1 & Hf1 & Hs1).
  destruct (register_all_names d0 d2 regs2 H2) as (L2 & Hn2 & Hnd2 & Hf2 & Hs2).
  rewrite Hn1, Hn2; apply Permutation_app_head, NoDup_Permutation; [exact Hnd1|exact Hnd2|].
  assert (Hmove : forall ra rb La Lb (da : RPCDispatcher),
             Permutation ra rb -> names da = (names d0 ++ Lb)%list ->
             (forall x, In x (names da) <-> In x (names d0) \/
                        exists r, In r rb /\ resolved_name r = Some x) ->
             (forall x, In x La -> ~ In x (names d0)) ->
             (forall x, In x La -> exists r, In r ra /\ resolved_name r = Some x) ->
             forall x, In x La -> In x Lb).
  { intros ra rb La Lb da Hp' Hn Hs Hf Hex x Hx.
    destruct (Hex x Hx) as (r & Hr & Hrx).
    assert (Hin : In x (names da))
      by (apply Hs; right; exists r; split; [apply (Permutation_in r Hp'); exact Hr|exact Hrx]).
    rewrite Hn in Hin; apply in_app_or in Hin as [Hin|Hin]; [|exact Hin].
    exfalso; exact (Hf x Hx Hin). }
  assert (Hex : forall d L regs,
             names d = (names d0 ++ L)%list ->
             (forall x, In x (names d) <-> In x (names d0) \/
                        exists r, In r regs /\ resolved_name r = Some x) ->
             (forall x, In x L -> ~ In x (names d0)) ->
             forall x, In x L -> exists r, In r regs /\ resolved_name r = Some x).
  { intros d L regs Hn Hs Hf x Hx.
    assert (Hin : In x (names d)) by (rewrite Hn; apply in_or_app; right; exact Hx).
    apply Hs in Hin as [Hin|Hin]; [exfalso; exact (Hf x Hx Hin)|exact Hin]. }
  intros x; split.
  - apply (Hmove regs1 regs2 L1 L2 d2 Hp Hn2 Hs2 Hf1).
    apply (Hex d1 L1 regs1 Hn1 Hs1 Hf1).
  - apply (Hmove regs2 regs1 L2 L1 d1 (Permutation_sym Hp) Hn1 Hs1 Hf2).
    apply (Hex d2 L2 regs2 Hn2 Hs2 Hf2).
Qed.

Lemma find_method_In (n : string) (l : list RPCMethod) (m : RPCMethod) :
  NoDup (map name l) -> In m l -> name m = n -> find_method n l = Some m.
Proof.
  induction l as [|m' l IH]; simpl; [intros _ []|].
  intros Hnd [<-|Hin] Hn.
  - rewrite Hn, String.eqb_refl; reflexivity.
  - inversion Hnd as [|? ? Hnot Hnd']; subst.
    destruct (String.eqb_spec (name m') (name m)) as [E|E].
    + exfalso; apply Hnot; rewrite E; apply in_map; exact Hin.
    + apply IH; auto.
Qed.

Lemma find_method_None (n : string) (l : list RPCMethod) :
  (forall m, In m l -> name m <> n) -> find_method n l = None.
Proof.
  induction l as [|m' l IH]; simpl; intros H; [reflexivity|].
  destruct (String.eqb_spec (name m') n) as [E|E].
  - exfalso; exact (H m' (or_introl eq_refl) E).
  - apply IH; intros m Hm; apply H; right; exact Hm.
Qed.

(** ** Concrete inputs *)

(** [def add(a, b)] with docstring "Adds two numbers". *)
Definition add_fn : callable :=
  {| c_id := 1; func_name := "add"; argspec_args := Some ["a"; "b"];
     getdoc := "Adds two numbers"; external_name := None; c_signature := None;
     c_permission := None |}.

(** [@rpcmethod(name='math.add', signature=['int', 'int', 'int'])] on [add]. *)
Definition add_rpc : callable :=
  rpcmethod (Some "math.add") (Some ["int"; "int"; "int"]) None add_fn.

(** [def scale(x, self)]: a plain function whose second parameter is
    called [self]. *)
Definition scale_fn : callable :=
  {| c_id := 2; func_name := "scale"; argspec_args := Some ["x"; "self"];
     getdoc := ""; external_name := None; c_signature := None;
     c_permission := None |}.

(** [def echo(value)] *)
Definition echo_fn : callable :=
  {| c_id := 3; func_name := "echo"; argspec_args := Some ["value"];
     getdoc := "Echoes its argument"; external_name := None; c_signature := None;
     c_permission := None |}.

Definition empty_dispatcher (u : string) : RPCDispatcher :=
  {| url := u; rpcmethods := []; xml_registered := []; json_registered := [] |}.

Definition plain (m : callable) : registration :=
  {| reg_method := m; reg_name := None; reg_signature := None; reg_helpmsg := None |}.

Example register_two :
  system_listmethods
    (match register_all (empty_dispatcher "/RPC2") [plain echo_fn; plain add_rpc] with
     | Ok d => d | Raise _ => empty_dispatcher "" end) = ["echo"; "math.add"].
Proof. reflexivity. Qed.

(** * Claims *)

(** ** C1 *)

(** C1 (as stated, refuted): a callable whose decorator set the external
    name "math.add", registered with the explicit name "override", gets the
    name "math.add", not the explicit override. *)
Lemma C1_counterexample :
  external_name add_rpc = Some "math.add" /\
  exists r, RPCMethod_init add_rpc (Some "override") None None = Ok r /\
            name r = "math.add" /\ name r <> "override".
Proof.
  split; [reflexivity|].
  eexists; split; [reflexivity|]; split; [reflexivity|discriminate].
Qed.

(** C1 (amended): the resolved name is the decorator's external name when
    the callable has one, else the explicit name when given, else the
    callable's [func_name]. *)
Theorem C1_name_priority (m : callable) (n : option string)
  (s : option (list string)) (h : option string) (r : RPCMethod) :
  RPCMethod_init m n s h = Ok r ->
  name r = match external_name m with
           | Some e => e
           | None => match n with Some x => x | None => func_name m end
           end.
Proof.
  unfold RPCMethod_init; destruct (argspec_args m); [|discriminate].
  intros H; injection H as <-; reflexivity.
Qed.

Lemma C1_name_priority_witness :
  exists r, RPCMethod_init add_rpc (Some "override") None None = Ok r /\
            name r = "math.add".
Proof.
  eexists; split; [reflexivity|].
  exact (C1_name_priority add_rpc (Some "override") None None _ eq_refl).
Defined.

(** ** C2 *)

(** C2: after construction the signature has [len(args) + 1] entries.  The
    decorator's signature is adopted when it has that length; otherwise the
    explicit signature when it has that length; otherwise every entry is
    "object". *)
Theorem C2_signature_length (m : callable) (n : option string)
  (s : option (list string)) (h : option string) (r : RPCMethod) :
  RPCMethod_init m n s h = Ok r ->
  List.length (signature r) = List.length (args r) + 1 /\
  (forall ms, c_signature m = Some ms ->
     List.length ms = List.length (args r) + 1 -> signature r = ms) /\
  (forall s', (forall ms, c_signature m = Some ms ->
                 List.length ms <> List.length (args r) + 1) ->
     s = Some s' -> List.length s' = List.length (args r) + 1 ->
     signature r = s') /\
  ((forall ms, c_signature m = Some ms ->
      List.length ms <> List.length (args r) + 1) ->
   (forall s', s = Some s' -> List.length s' <> List.length (args r) + 1) ->
   signature r = repeat "object" (List.length (args r) + 1)).
Proof.
  unfold RPCMethod_init; destruct (argspec_args m) as [all|]; [|discriminate].
  intros H; injection H as <-; simpl.
  set (a := filter is_not_self all).
  assert (Hdef : List.length ("object" :: map (fun _ : string => "object") a) =
                 List.length a + 1)
    by (simpl; rewrite length_map; lia).
  assert (Hrep : "object" :: map (fun _ : string => "object") a =
                 repeat "object" (List.length a + 1))
    by (rewrite map_const_repeat, Nat.add_1_r; reflexivity).
  destruct (c_signature m) as [ms|] eqn:Ems;
  [destruct (Nat.eqb_spec (List.length ms) (List.length a + 1)) as [Ems'|Ems']|];
  try (destruct s as [s0|];
       [destruct (Nat.eqb_spec (List.length a + 1) (List.length s0)) as [Es|Es]|]);
  repeat split; intros; try congruence;
  repeat match goal with
         | H : Some _ = Some _ |- _ => injection H as <-
         | H : forall ms, Some ?x = Some ms -> _ |- _ =>
             specialize (H x eq_refl)
         | H : forall s', Some ?x = Some s' -> _ |- _ =>
             specialize (H x eq_refl)
         end; try congruence; try lia.
Qed.

Lemma C2_signature_length_witness :
  exists r, RPCMethod_init scale_fn None (Some ["int"; "int"; "int"]) None = Ok r /\
            List.length (signature r) = List.length (args r) + 1 /\
            signature r = ["object"; "object"].
Proof.
  eexists; split; [reflexivity|].
  destruct (C2_signature_length scale_fn None (Some ["int"; "int"; "int"]) None _ eq_refl)
    as (Hlen & _ & _ & Hdef).
  split; [exact Hlen|].
  apply Hdef; [discriminate|].
  intros s' Hs; injection Hs as <-; discriminate.
Defined.

(** ** C3 *)

(** C3: when the resolved name of a registration is already present, the
    registration returns without error and leaves the dispatcher as it was
    (the descriptor list, both protocol dispatchers and so the descriptor
    reachable under that name). *)
Theorem C3_duplicate_registration_noop (d : RPCDispatcher) (m : callable)
  (n : option string) (s : option (list string)) (h : option string)
  (meth : RPCMethod) :
  RPCMethod_init m n s h = Ok meth -> In (name meth) (names d) ->
  register_method d m n s h = Ok d.
Proof.
  intros Hm Hin; unfold register_method; rewrite Hm; simpl.
  unfold system_listmethods.
  replace (existsb (String.eqb (name meth)) (sort (map name (rpcmethods d)))) with true;
    [reflexivity|].
  symmetry; apply existsb_eqb_In, in_sort; exact Hin.
Qed.

(** The second registration of the name "add" changes nothing: [add] stays
    the descriptor found under it. *)
Lemma C3_duplicate_registration_noop_witness :
  let d := match register_method (empty_dispatcher "/RPC2") add_fn None None None with
           | Ok d => d | Raise _ => empty_dispatcher "" end in
  register_method d echo_fn (Some "add") None None = Ok d /\
  option_map method (find_method "add" (rpcmethods d)) = Some add_fn.
Proof.
  intros d; split; [|reflexivity].
  apply (C3_duplicate_registration_noop d echo_fn (Some "add") None None
           {| method := echo_fn; help := "Echoes its argument";
              signature := ["object"; "object"]; name := "add";
              permission := None; args := ["value"] |}); [reflexivity|].
  simpl; left; reflexivity.
Defined.

(** ** C4 *)

(** C4: [system.listMethods()] returns the registered names sorted, and two
    sequences of registrations that are permutations of each other give the
    same list. *)
Theorem C4_listmethods_sorted (d0 d1 d2 : RPCDispatcher) (regs1 regs2 : list registration) :
  Permutation regs1 regs2 ->
  register_all d0 regs1 = Ok d1 -> register_all d0 regs2 = Ok d2 ->
  system_listmethods d1 = system_listmethods d2 /\
  Sorted str_le (system_listmethods d1) /\
  Permutation (system_listmethods d1) (names d1).
Proof.
  intros Hp H1 H2; split; [|split].
  - apply sort_Permutation_eq, (register_all_perm_names d0 d1 d2 regs1 regs2 Hp H1 H2).
  - apply sort_Sorted.
  - apply sort_perm.
Qed.

Lemma C4_listmethods_sorted_witness :
  Permutation [plain echo_fn; plain add_rpc] [plain add_rpc; plain echo_fn] /\
  exists d1 d2,
    register_all (empty_dispatcher "/RPC2") [plain echo_fn; plain add_rpc] = Ok d1 /\
    register_all (empty_dispatcher "/RPC2") [plain add_rpc; plain echo_fn] = Ok d2 /\
    system_listmethods d1 = system_listmethods d2 /\
    system_listmethods d1 = ["echo"; "math.add"].
Proof.
  split; [apply perm_swap|].
  do 2 eexists; split; [reflexivity|]; split; [reflexivity|]; split; [|reflexivity].
  apply (C4_listmethods_sorted (empty_dispatcher "/RPC2") _ _
           [plain echo_fn; plain add_rpc] [plain add_rpc; plain echo_fn]);
    [apply perm_swap|reflexivity|reflexivity].
Defined.

(** ** C5 *)

(** C5 (as stated, refuted): in XML mode a malformed body, on which
    [xmlrpclib.loads] raises [ExpatError], makes [get_method_name] raise;
    in JSON mode a body [json.loads] rejects gives [None], not "unknown". *)
Lemma C5_counterexample :
  get_method_name (fun _ => Raise ExpatError) (fun _ => Raise ValueError) "<" "xml"
    = Raise ExpatError /\
  get_method_name (fun _ => Raise ExpatError) (fun _ => Raise ValueError) "{" "json"
    = Ok None /\
  Ok None <> Ok (Some (JStr "unknown")).
Proof.
  split; [reflexivity|]; split; [reflexivity|discriminate].
Qed.

(** C5 (amended): [get_method_name] only decodes its input (it takes no
    dispatcher and runs no procedure).  With a format other than "xml" a
    [ValueError] from [json.loads] gives [None]; with "xml" a [Fault] from
    [xmlrpclib.loads] gives [None], any other exception of the decoder is
    raised to the caller, and a decoded call gives its method name. *)
Theorem C5_get_method_name_errors
  (xml_loads : string -> result (list pyval * option string))
  (json_loads : string -> result json) (raw fmt : string) :
  (fmt <> "xml" -> json_loads raw = Raise ValueError ->
     get_method_name xml_loads json_loads raw fmt = Ok None) /\
  (fmt = "xml" ->
     (forall c msg, xml_loads raw = Raise (Fault c msg) ->
        get_method_name xml_loads json_loads raw fmt = Ok None) /\
     (forall e, xml_loads raw = Raise e -> (forall c msg, e <> Fault c msg) ->
        get_method_name xml_loads json_loads raw fmt = Raise e) /\
     (forall params mn, xml_loads raw = Ok (params, mn) ->
        get_method_name xml_loads json_loads raw fmt = Ok (option_map JStr mn))).
Proof.
  unfold get_method_name; split.
  - intros Hf Hj; apply String.eqb_neq in Hf; rewrite Hf, Hj; reflexivity.
  - intros ->; simpl; split; [|split].
    + intros c msg ->; reflexivity.
    + intros e -> He; destruct e; try reflexivity.
      exfalso; exact (He faultCode faultString eq_refl).
    + intros params mn ->; reflexivity.
Qed.

(** ** C6 *)

(** C6 (code defect): [system.describe()] stores the one-element tuple
    [(url,)] under "serviceURL", not the URL; the "methods" entry has one
    [{name, summary, params, return}] dictionary per descriptor, in
    registration order. *)
Theorem C6_describe_serviceURL_tuple (d : RPCDispatcher) :
  system_describe d =
    PDict [("serviceType", PStr "RPC4Django JSONRPC+XMLRPC");
           ("serviceURL", PTuple [PStr (url d)]);
           ("methods",
             PList (map (fun m => PDict [("name", PStr (name m));
                                          ("summary", PStr (help m));
                                          ("params", PList (get_params m));
                                          ("return", option_str (get_returnvalue m))])
                        (rpcmethods d)))] /\
  PTuple [PStr (url d)] <> PStr (url d).
Proof. split; [reflexivity|discriminate]. Qed.

Example C6_failing_input :
  match system_describe (empty_dispatcher "/RPC2") with
  | PDict (_ :: (_, v) :: _) => v
  | _ => PNone
  end = PTuple [PStr "/RPC2"].
Proof. reflexivity. Qed.

(** ** C7 *)

(** C7: on a dispatcher built by registrations, [system.methodHelp(n)] and
    [system.methodSignature(n)] return the help and signature of the
    descriptor named [n]; with no such descriptor both raise
    [Fault(APPLICATION_ERROR, 'No method found with name: ' + n)]. *)
Theorem C7_help_signature_lookup (d0 d : RPCDispatcher) (regs : list registration)
  (n : string) :
  NoDup (names d0) -> register_all d0 regs = Ok d ->
  (forall m, In m (rpcmethods d) -> name m = n ->
     system_methodhelp d n = Ok (help m) /\
     system_methodsignature d n = Ok (signature m)) /\
  ((forall m, In m (rpcmethods d) -> name m <> n) ->
     system_methodhelp d n =
       Raise (Fault APPLICATION_ERROR ("No method found with name: " ++ n)) /\
     system_methodsignature d n =
       Raise (Fault APPLICATION_ERROR ("No method found with name: " ++ n))).
Proof.
  intros H0 Hr; pose proof (register_all_NoDup d0 d regs H0 Hr) as Hnd.
  unfold system_methodhelp, system_methodsignature; split.
  - intros m Hm Hn; rewrite (find_method_In n (rpcmethods d) m Hnd Hm Hn); split; reflexivity.
  - intros Hno; rewrite (find_method_None n (rpcmethods d) Hno); split; reflexivity.
Qed.

Lemma C7_help_signature_lookup_witness :
  exists d,
    register_all (empty_dispatcher "/RPC2") [plain echo_fn; plain add_rpc] = Ok d /\
    system_methodhelp d "echo" = Ok "Echoes its argument" /\
    system_methodsignature d "math.add" = Ok ["int"; "int"; "int"] /\
    system_methodhelp d "nope" =
      Raise (Fault APPLICATION_ERROR "No method found with name: nope").
Proof.
  eexists; split; [reflexivity|].
  pose proof (C7_help_signature_lookup (empty_dispatcher "/RPC2") _
                [plain echo_fn; plain add_rpc] "echo" (NoDup_nil _) eq_refl)
    as [Hecho _].
  pose proof (C7_help_signature_lookup (empty_dispatcher "/RPC2") _
                [plain echo_fn; plain add_rpc] "math.add" (NoDup_nil _) eq_refl)
    as [Hadd _].
  pose proof (C7_help_signature_lookup (empty_dispatcher "/RPC2") _
                [plain echo_fn; plain add_rpc] "nope" (NoDup_nil _) eq_refl)
    as [_ Hnone].
  split; [|split].
  - apply (Hecho _ (or_introl eq_refl) eq_refl).
  - apply (Hadd _ (or_intror (or_introl eq_refl)) eq_refl).
  - apply Hnone; simpl; intros m [<-|[<-|[]]]; discriminate.
Defined.

(** ** C8 *)

(** A descriptor whose signature was emptied after construction. *)
Definition add_empty_sig : RPCMethod :=
  {| method := add_fn; help := "Adds two numbers"; signature := [];
     name := "add"; permission := None; args := ["a"; "b"] |}.

(** C8 (as stated, refuted): with an empty signature [get_params] returns
    the empty list, not every parameter paired with "object". *)
Lemma C8_counterexample :
  get_params add_empty_sig = [] /\
  get_params add_empty_sig <> map (fun a => param_dict a "object") (args add_empty_sig).
Proof. split; [reflexivity|discriminate]. Qed.

(** C8 (amended): when [len(signature) = len(args) + 1], entry [i] pairs
    [args[i]] with [signature[i+1]]; a non-empty signature of another
    length pairs every name with "object"; an empty signature gives the
    empty list. *)
Theorem C8_get_params (r : RPCMethod) :
  (List.length (signature r) = List.length (args r) + 1 ->
     List.length (get_params r) = List.length (args r) /\
     forall i, i < List.length (args r) ->
       nth_error (get_params r) i =
         Some (param_dict (nth i (args r) "") (nth (S i) (signature r) ""))) /\
  (signature r <> [] -> List.length (signature r) <> List.length (args r) + 1 ->
     get_params r = map (fun a => param_dict a "object") (args r)) /\
  (signature r = [] -> get_params r = []).
Proof.
  unfold get_params; destruct r as [mt hp sg nm pm ar]; simpl.
  split; [|split].
  - intros Hlen.
    assert (Hpos : Nat.ltb 0 (List.length sg) = true) by (apply Nat.ltb_lt; lia).
    rewrite Hpos, Hlen, Nat.eqb_refl.
    destruct sg as [|t ts]; [simpl in Hlen; lia|]; simpl in Hlen |- *.
    assert (Hts : List.length ts = List.length ar) by lia.
    split.
    + rewrite length_map, length_combine, Hts, Nat.min_id; reflexivity.
    + intros i Hi; rewrite nth_error_map; clear Hlen Hpos t.
      revert i Hi ts Hts; induction ar as [|a ar IH]; intros i Hi ts Hts;
        simpl in Hi; [lia|].
      destruct ts as [|t' ts]; simpl in Hts; [lia|].
      destruct i as [|i]; simpl; [reflexivity|].
      specialize (IH i ltac:(lia) ts ltac:(lia)).
      exact IH.
  - intros Hne Hlen; destruct sg as [|t ts]; [congruence|].
    replace (Nat.ltb 0 (List.length (t :: ts))) with true by reflexivity.
    destruct (Nat.eqb_spec (List.length (t :: ts)) (List.length ar + 1));
      [lia|reflexivity].
  - intros ->; reflexivity.
Qed.

(** ** C9 *)

(** C9: the descriptor's parameter names are [inspect.getargspec]'s list
    with every parameter named "self" removed, wherever it stands; a plain
    function [scale(x, self)] gets the single parameter "x" and a
    two-entry default signature. *)
Theorem C9_args_drop_self (m : callable) (n : option string)
  (s : option (list string)) (h : option string) (all : list string) (r : RPCMethod) :
  argspec_args m = Some all -> RPCMethod_init m n s h = Ok r ->
  args r = filter (fun a => negb (String.eqb a "self")) all.
Proof.
  unfold RPCMethod_init; intros -> H; injection H as <-; reflexivity.
Qed.

Lemma C9_args_drop_self_witness :
  exists r, RPCMethod_init scale_fn None None None = Ok r /\
            args r = ["x"] /\ signature r = ["object"; "object"].
Proof.
  eexists; split; [reflexivity|]; split; [|reflexivity].
  exact (C9_args_drop_self scale_fn None None None ["x"; "self"] _ eq_refl eq_refl).
Defined.

(** ** C10 *)

(** C10: in JSON mode, when [json.loads] succeeds, [get_method_name]
    returns the value under "method" when the body is an object with that
    key, and [None] for every other value, a batch array included. *)
Theorem C10_json_method_name
  (xml_loads : string -> result (list pyval * option string))
  (json_loads : string -> result json) (raw fmt : string) (v : json) :
  fmt <> "xml" -> json_loads raw = Ok v ->
  (forall kvs mv, v = JObj kvs -> dict_lookup "method" kvs = Some mv ->
     get_method_name xml_loads json_loads raw fmt = Ok (Some mv)) /\
  ((forall kvs, v = JObj kvs -> dict_lookup "method" kvs = None) ->
     get_method_name xml_loads json_loads raw fmt = Ok None).
Proof.
  intros Hf Hj; unfold get_method_name.
  apply String.eqb_neq in Hf; rewrite Hf, Hj; split.
  - intros kvs mv -> ->; reflexivity.
  - intros Hno; destruct v; try reflexivity.
    rewrite (Hno kvs eq_refl); reflexivity.
Qed.

(** A well-formed batch of two calls yields [None]. *)
Lemma C10_json_method_name_witness :
  get_method_name (fun _ => Raise ExpatError)
    (fun _ => Ok (JArr [JObj [("method", JStr "a"); ("id", JNum 1)];
                        JObj [("method", JStr "b"); ("id", JNum 2)]]))
    "[...]" "json" = Ok None.
Proof.
  apply (C10_json_method_name (fun _ => Raise ExpatError)
           (fun _ => Ok (JArr [JObj [("method", JStr "a"); ("id", JNum 1)];
                               JObj [("method", JStr "b"); ("id", JNum 2)]]))
           "[...]" "json" _ ltac:(discriminate) eq_refl).
  intros kvs Hk; discriminate.
Defined.

(** * Further properties of the module *)

(** ** Helper facts *)

Lemma RPCMethod_init_method (m : callable) n s h (r : RPCMethod) :
  RPCMethod_init m n s h = Ok r -> method r = m.
Proof.
  unfold RPCMethod_init; destruct (argspec_args m); [|discriminate].
  intros H; injection H as <-; reflexivity.
Qed.

Lemma RPCMethod_init_sig_length (m : callable) n s h (r : RPCMethod) :
  RPCMethod_init m n s h = Ok r ->
  List.length (signature r) = List.length (args r) + 1.
Proof.
  unfold RPCMethod_init; destruct (argspec_args m) as [all|]; [|discriminate].
  intros H; injection H as <-; simpl.
  assert (Hdef : forall a : list string,
             List.length ("object" :: map (fun _ : string => "object") a) =
             List.length a + 1)
    by (intros a; simpl; rewrite length_map; lia).
  destruct (c_signature m) as [ms|];
  [destruct (Nat.eqb_spec (List.length ms) (List.length (filter is_not_self all) + 1))|];
  try (destruct s as [s0|];
       [destruct (Nat.eqb_spec (List.length (filter is_not_self all) + 1) (List.length s0))|]);
  auto.
Qed.

Lemma register_method_shape (d d' : RPCDispatcher) m n s h :
  register_method d m n s h = Ok d' ->
  exists meth, RPCMethod_init m n s h = Ok meth /\
    ((In (name meth) (names d) /\ d' = d) \/
     (~ In (name meth) (names d) /\
      d' = {| url := url d;
              rpcmethods := (rpcmethods d ++ [meth])%list;
              xml_registered := (xml_registered d ++ [(m, name meth)])%list;
              json_registered := (json_registered d ++ [(m, name meth)])%list |})).
Proof.
  unfold register_method, bind.
  destruct (RPCMethod_init m n s h) as [meth|e]; [|discriminate].
  intros H; exists meth; split; [reflexivity|].
  unfold system_listmethods in H.
  destruct (existsb (String.eqb (name meth)) (sort (map name (rpcmethods d)))) eqn:E.
  - left; injection H as <-; split; [|reflexivity].
    rewrite existsb_eqb_In, in_sort in E; exact E.
  - right; injection H as <-; split; [|reflexivity].
    intros Hin; unfold names in Hin; rewrite <- in_sort, <- existsb_eqb_In in Hin; congruence.
Qed.

Lemma find_method_app_prefix (n : string) (l extra : list RPCMethod) :
  In n (map name l) -> find_method n (l ++ extra)%list = find_method n l.
Proof.
  induction l as [|m l IH]; simpl; [intros []|].
  intros Hin; destruct (String.eqb (name m) n) eqn:E; [reflexivity|].
  apply IH; destruct Hin as [Hin|Hin]; [|exact Hin].
  rewrite Hin, String.eqb_refl in E; discriminate.
Qed.

Lemma find_method_app_absent (n : string) (l extra : list RPCMethod) :
  ~ In n (map name l) -> find_method n (l ++ extra)%list = find_method n extra.
Proof.
  induction l as [|m l IH]; simpl; [reflexivity|].
  intros Hn; destruct (String.eqb_spec (name m) n) as [E|E].
  - exfalso; apply Hn; left; exact E.
  - apply IH; intros H; apply Hn; right; exact H.
Qed.

Lemma register_all_prefix (d0 d : RPCDispatcher) (regs : list registration) :
  register_all d0 regs = Ok d ->
  exists extra, rpcmethods d = (rpcmethods d0 ++ extra)%list /\ url d = url d0.
Proof.
  revert d0; induction regs as [|r rs IH]; intros d0 H; simpl in H.
  - injection H as <-; exists []; rewrite app_nil_r; split; reflexivity.
  - destruct (register_method d0 (reg_method r) (reg_name r) (reg_signature r)
                (reg_helpmsg r)) as [d1|e] eqn:E1; [|discriminate]; simpl in H.
    destruct (IH d1 H) as (extra & He & Hu).
    apply register_method_shape in E1 as (meth & _ & [(_ & ->)|(_ & ->)]).
    + exists extra; split; assumption.
    + exists (meth :: extra); simpl in He, Hu; rewrite He, <- app_assoc; split; [reflexivity|exact Hu].
Qed.

Lemma param_names_pairs (ar ts : list string) :
  List.length ts = List.length ar ->
  map param_name (map (fun p => param_dict (fst p) (snd p)) (combine ar ts)) = ar.
Proof.
  revert ts; induction ar as [|a ar IH]; intros [|t ts] Hts; simpl in Hts |- *;
    try lia; [reflexivity|].
  f_equal; apply IH; lia.
Qed.

Lemma param_names_objects (ar : list string) :
  map param_name (map (fun a => param_dict a "object") ar) = ar.
Proof. induction ar as [|a ar IH]; simpl; congruence. Qed.

(** ** The decorator *)

(** [@rpcmethod(...)] fixes the descriptor's name: the [name] keyword when
    given, else the function's own name; the name passed at registration
    is ignored.  The permission is the [permission] keyword. *)
Theorem X_decorator_name_permission (kn : option string) (ks : option (list string))
  (kp : option string) (f : callable) (n : option string)
  (s : option (list string)) (h : option string) (r : RPCMethod) :
  RPCMethod_init (rpcmethod kn ks kp f) n s h = Ok r ->
  name r = match kn with Some x => x | None => func_name f end /\
  permission r = kp.
Proof.
  unfold RPCMethod_init, rpcmethod; simpl.
  destruct (argspec_args f); [|discriminate].
  intros H; injection H as <-; simpl; split; [destruct kn; reflexivity|reflexivity].
Qed.

Lemma X_decorator_name_permission_witness :
  exists r, RPCMethod_init (rpcmethod None None (Some "add_group") add_fn)
              (Some "other") None None = Ok r /\
            name r = "add" /\ permission r = Some "add_group".
Proof.
  eexists; split; [reflexivity|].
  exact (X_decorator_name_permission None None (Some "add_group") add_fn
           (Some "other") None None _ eq_refl).
Defined.

(** A decorator signature of the right length wins over the one passed at
    registration; a decorator without [signature] stores [[]], which never
    has the right length, so the passed signature is used when its length
    is right and "object" everywhere otherwise. *)
Theorem X_decorator_signature (kn : option string) (ks : option (list string))
  (kp : option string) (f : callable) (n : option string)
  (s : option (list string)) (h : option string) (r : RPCMethod) :
  RPCMethod_init (rpcmethod kn ks kp f) n s h = Ok r ->
  (forall sg, ks = Some sg -> List.length sg = List.length (args r) + 1 ->
     signature r = sg) /\
  (ks = None -> forall s', s = Some s' -> List.length s' = List.length (args r) + 1 ->
     signature r = s') /\
  (ks = None -> (forall s', s = Some s' -> List.length s' <> List.length (args r) + 1) ->
     signature r = repeat "object" (List.length (args r) + 1)).
Proof.
  unfold RPCMethod_init, rpcmethod; simpl.
  destruct (argspec_args f) as [all|]; [|discriminate].
  intros H; injection H as <-; simpl.
  set (a := filter is_not_self all).
  assert (Hrep : "object" :: map (fun _ : string => "object") a =
                 repeat "object" (List.length a + 1))
    by (rewrite map_const_repeat, Nat.add_1_r; reflexivity).
  split; [|split].
  - intros sg -> Hl; rewrite Hl, Nat.eqb_refl; reflexivity.
  - intros -> s' -> Hl.
    replace (Nat.eqb (List.length (@nil string)) (List.length a + 1)) with false
      by (rewrite Nat.add_1_r; reflexivity).
    rewrite Hl, Nat.eqb_refl; reflexivity.
  - intros -> Hs.
    replace (Nat.eqb (List.length (@nil string)) (List.length a + 1)) with false
      by (rewrite Nat.add_1_r; reflexivity).
    destruct s as [s0|]; [|exact Hrep].
    destruct (Nat.eqb_spec (List.length a + 1) (List.length s0)) as [E|E];
      [exfalso; exact (Hs s0 eq_refl (eq_sym E))|exact Hrep].
Qed.

Lemma X_decorator_signature_witness :
  exists r, RPCMethod_init (rpcmethod (Some "math.add") None None add_fn) None
              (Some ["int"; "int"; "int"]) None = Ok r /\
            signature r = ["int"; "int"; "int"].
Proof.
  eexists; split; [reflexivity|].
  destruct (X_decorator_signature (Some "math.add") None None add_fn None
              (Some ["int"; "int"; "int"]) None _ eq_refl) as (_ & Hs & _).
  apply (Hs eq_refl _ eq_refl); reflexivity.
Defined.

(** ** Registration *)



(** Registering a new name appends its descriptor to [rpcmethods], hands
    [(method, name)] to both protocol dispatchers, and puts the name into
    [system.listMethods()] at its sorted place. *)
Theorem X_register_fresh (d : RPCDispatcher) (m : callable) (n : option string)
  (s : option (list string)) (h : option string) (meth : RPCMethod) :
  RPCMethod_init m n s h = Ok meth -> ~ In (name meth) (names d) ->
  exists d', register_method d m n s h = Ok d' /\
    rpcmethods d' = (rpcmethods d ++ [meth])%list /\
    xml_registered d' = (xml_registered d ++ [(m, name meth)])%list /\
    json_registered d' = (json_registered d ++ [(m, name meth)])%list /\
    url d' = url d /\
    system_listmethods d' = insert_sorted (name meth) (system_listmethods d).
Proof.
  intros Hm Hn.
  destruct (register_method d m n s h) as [d'|e] eqn:E.
  - exists d'; split; [reflexivity|].
    apply register_method_shape in E as (meth' & Hm' & [(Hin & _)|(_ & ->)]);
      rewrite Hm in Hm'; injection Hm' as <-; [contradiction|].
    simpl; repeat split.
    unfold system_listmethods; simpl.
    rewrite map_app; simpl.
    transitivity (sort (name meth :: map name (rpcmethods d))); [|reflexivity].
    apply sort_Permutation_eq; symmetry; apply Permutation_cons_append.
  - exfalso; unfold register_method in E; rewrite Hm in E; simpl in E.
    destruct (existsb _ _); discriminate.
Qed.

Lemma X_register_fresh_witness :
  exists d', register_method
               {| url := "/RPC2"; rpcmethods := [];
                  xml_registered := []; json_registered := [] |}
               echo_fn None None None = Ok d' /\
    system_listmethods d' = ["echo"].
Proof.
  destruct (X_register_fresh
              {| url := "/RPC2"; rpcmethods := []; xml_registered := [];
                 json_registered := [] |} echo_fn None None None
              {| method := echo_fn; help := "Echoes its argument";
                 signature := ["object"; "object"]; name := "echo";
                 permission := None; args := ["value"] |} eq_refl (fun H => H))
    as (d' & Hr & _ & _ & _ & _ & Hl).
  exists d'; split; [exact Hr|]; rewrite Hl; reflexivity.
Defined.

(** After a new name is registered, [system.methodHelp] and
    [system.methodSignature] answer for it with the new descriptor's help and
    signature, and answer for every other name as before. *)
Theorem X_register_then_lookup (d d' : RPCDispatcher) (m : callable)
  (n : option string) (s : option (list string)) (h : option string) (meth : RPCMethod) :
  RPCMethod_init m n s h = Ok meth -> ~ In (name meth) (names d) ->
  register_method d m n s h = Ok d' ->
  system_methodhelp d' (name meth) = Ok (help meth) /\
  system_methodsignature d' (name meth) = Ok (signature meth) /\
  (forall x, x <> name meth ->
     system_methodhelp d' x = system_methodhelp d x /\
     system_methodsignature d' x = system_methodsignature d x).
Proof.
  intros Hm Hn Hr.
  apply register_method_shape in Hr as (meth' & Hm' & [(Hin & _)|(_ & ->)]);
    rewrite Hm in Hm'; injection Hm' as <-; [contradiction|].
  unfold system_methodhelp, system_methodsignature; simpl.
  rewrite (find_method_app_absent (name meth) (rpcmethods d) [meth] Hn); simpl.
  rewrite String.eqb_refl; split; [reflexivity|]; split; [reflexivity|].
  intros x Hx.
  assert (Hf : find_method x (rpcmethods d ++ [meth])%list = find_method x (rpcmethods d)).
  { destruct (in_dec string_dec x (names d)) as [Hi|Hi].
    - apply find_method_app_prefix; exact Hi.
    - rewrite (find_method_app_absent x _ _ Hi); simpl.
      destruct (String.eqb_spec (name meth) x) as [E|E]; [congruence|].
      symmetry; apply find_method_None.
      intros r Hr Hrx; apply Hi; rewrite <- Hrx; apply in_map; exact Hr. }
  rewrite Hf; split; reflexivity.
Qed.

Lemma X_register_then_lookup_witness :
  exists d',
    register_method (empty_dispatcher "/RPC2") echo_fn None None (Some "Echo it") = Ok d' /\
    system_methodhelp d' "echo" = Ok "Echo it".
Proof.
  eexists; split; [reflexivity|].
  apply (X_register_then_lookup (empty_dispatcher "/RPC2") _ echo_fn None None
           (Some "Echo it")
           {| method := echo_fn; help := "Echo it"; signature := ["object"; "object"];
              name := "echo"; permission := None; args := ["value"] |}
           eq_refl (fun H => H) eq_refl).
Defined.

(** ** Sequences of registrations *)

(** Registrations only append: the earlier descriptors keep their order,
    the URL is untouched, and every name already present still finds the
    descriptor it found before. *)
Theorem X_register_all_preserves_existing (d0 d : RPCDispatcher)
  (regs : list registration) :
  register_all d0 regs = Ok d ->
  (exists extra, rpcmethods d = (rpcmethods d0 ++ extra)%list) /\
  url d = url d0 /\
  (forall x, In x (names d0) -> find_method x (rpcmethods d) = find_method x (rpcmethods d0)).
Proof.
  intros H; destruct (register_all_prefix d0 d regs H) as (extra & He & Hu).
  split; [exists extra; exact He|]; split; [exact Hu|].
  intros x Hx; rewrite He; apply find_method_app_prefix; exact Hx.
Qed.

Lemma X_register_all_preserves_existing_witness :
  let d1 := match register_method (empty_dispatcher "/RPC2") echo_fn None None None with
            | Ok d => d | Raise _ => empty_dispatcher "" end in
  exists d,
    register_all d1 [{| reg_method := add_fn; reg_name := Some "echo";
                        reg_signature := None; reg_helpmsg := None |}] = Ok d /\
    find_method "echo" (rpcmethods d) = find_method "echo" (rpcmethods d1).
Proof.
  intros d1; eexists; split; [reflexivity|].
  exact (proj2 (proj2 (X_register_all_preserves_existing d1 _
           [{| reg_method := add_fn; reg_name := Some "echo";
               reg_signature := None; reg_helpmsg := None |}] eq_refl))
           "echo" (or_introl eq_refl)).
Defined.

(** The three registries stay in step: the XML and JSON dispatchers hold
    exactly the (callable, name) pairs of [rpcmethods], in its order. *)
Theorem X_register_all_in_sync (d0 d : RPCDispatcher) (regs : list registration) :
  registered_in_sync d0 -> register_all d0 regs = Ok d -> registered_in_sync d.
Proof.
  revert d0; induction regs as [|r rs IH]; intros d0 Hs H; simpl in H.
  - injection H as <-; exact Hs.
  - destruct (register_method d0 (reg_method r) (reg_name r) (reg_signature r)
                (reg_helpmsg r)) as [d1|e] eqn:E1; [|discriminate]; simpl in H.
    apply (IH d1); [|exact H].
    apply register_method_shape in E1 as (meth & Hm & [(_ & ->)|(_ & ->)]); [exact Hs|].
    destruct Hs as [Hx Hj]; unfold registered_in_sync; simpl.
    rewrite map_app, Hx, Hj; simpl.
    rewrite (RPCMethod_init_method _ _ _ _ _ Hm); split; reflexivity.
Qed.

Lemma X_register_all_in_sync_witness :
  exists d, register_all (empty_dispatcher "/RPC2") [plain echo_fn; plain add_rpc] = Ok d /\
            registered_in_sync d.
Proof.
  eexists; split; [reflexivity|].
  apply (X_register_all_in_sync (empty_dispatcher "/RPC2") _ [plain echo_fn; plain add_rpc]);
    [split; reflexivity|reflexivity].
Defined.

(** Every descriptor of the registry satisfies the length invariant when
    the registry it started from did. *)
Theorem X_register_all_sig_ok (d0 d : RPCDispatcher) (regs : list registration) :
  Forall sig_ok (rpcmethods d0) -> register_all d0 regs = Ok d ->
  Forall sig_ok (rpcmethods d).
Proof.
  revert d0; induction regs as [|r rs IH]; intros d0 Hs H; simpl in H.
  - injection H as <-; exact Hs.
  - destruct (register_method d0 (reg_method r) (reg_name r) (reg_signature r)
                (reg_helpmsg r)) as [d1|e] eqn:E1; [|discriminate]; simpl in H.
    apply (IH d1); [|exact H].
    apply register_method_shape in E1 as (meth & Hm & [(_ & ->)|(_ & ->)]); [exact Hs|].
    simpl; apply Forall_app; split; [exact Hs|].
    constructor; [apply (RPCMethod_init_sig_length _ _ _ _ _ Hm)|constructor].
Qed.

Lemma X_register_all_sig_ok_witness :
  exists d, register_all (empty_dispatcher "/RPC2") [plain scale_fn; plain add_rpc] = Ok d /\
            Forall sig_ok (rpcmethods d).
Proof.
  eexists; split; [reflexivity|].
  apply (X_register_all_sig_ok (empty_dispatcher "/RPC2") _ [plain scale_fn; plain add_rpc]);
    [constructor|reflexivity].
Defined.

(** ** What a constructed descriptor reports *)

(** For a descriptor built by [RPCMethod.__init__], [get_params] takes its
    pairing branch, its entries name exactly [args] in order, and
    [get_returnvalue] is the first signature tag, never [None]. *)
Theorem X_constructed_params (m : callable) (n : option string)
  (s : option (list string)) (h : option string) (r : RPCMethod) :
  RPCMethod_init m n s h = Ok r ->
  get_params r = map (fun p => param_dict (fst p) (snd p))
                     (combine (args r) (tl (signature r))) /\
  map param_name (get_params r) = args r /\
  exists t, signature r = t :: tl (signature r) /\ get_returnvalue r = Some t.
Proof.
  intros Hm; pose proof (RPCMethod_init_sig_length _ _ _ _ _ Hm) as Hl.
  destruct r as [mt hp sg nm pm ar]; cbn [signature args] in Hl |- *.
  destruct sg as [|t ts]; [simpl in Hl; lia|].
  assert (Hpos : Nat.ltb 0 (List.length (t :: ts)) = true) by reflexivity.
  unfold get_params; cbn [signature args].
  rewrite Hpos, Hl, Nat.eqb_refl.
  simpl in Hl; assert (Hts : List.length ts = List.length ar) by lia.
  split; [reflexivity|]; split; [|exists t; split; reflexivity].
  apply param_names_pairs; exact Hts.
Qed.

Lemma X_constructed_params_witness :
  exists r, RPCMethod_init add_rpc None None None = Ok r /\
            get_params r = [param_dict "a" "int"; param_dict "b" "int"] /\
            get_returnvalue r = Some "int".
Proof.
  eexists; split; [reflexivity|].
  destruct (X_constructed_params add_rpc None None None _ eq_refl)
    as (Hp & _ & t & Hsig & Ht).
  split; [exact Hp|rewrite Ht].
  vm_compute in Hsig; injection Hsig as <-; reflexivity.
Defined.

(** [get_stub] renders the descriptor's name and, in the params line,
    each of its [args] in double quotes, in order, separated by commas,
    whenever the signature is not empty. *)
Theorem X_get_stub_lists_args (r : RPCMethod) :
  signature r <> [] ->
  get_stub r =
    join nl ["{";
             dq ++ "id" ++ dq ++ ": " ++ dq ++ "djangorpc" ++ dq ++ ",";
             dq ++ "method" ++ dq ++ ": " ++ dq ++ name r ++ dq ++ ",";
             dq ++ "params" ++ dq ++ ": [";
             "   " ++ join "," (map (fun a => dq ++ a ++ dq) (args r));
             "]";
             "}"].
Proof.
  intros Hne.
  assert (Hnames : map param_name (get_params r) = args r).
  { destruct r as [mt hp sg nm pm ar]; cbn [signature args] in Hne |- *.
    unfold get_params; cbn [signature args].
    destruct sg as [|t ts]; [congruence|].
    replace (Nat.ltb 0 (List.length (t :: ts))) with true by reflexivity.
    destruct (Nat.eqb_spec (List.length (t :: ts)) (List.length ar + 1)) as [E|E].
    - apply param_names_pairs; simpl in E |- *; lia.
    - apply param_names_objects. }
  unfold get_stub.
  replace (map (fun p => dq ++ param_name p ++ dq) (get_params r))
    with (map (fun a => dq ++ a ++ dq) (args r)); [reflexivity|].
  rewrite <- Hnames, map_map; reflexivity.
Qed.

Lemma X_get_stub_lists_args_witness :
  get_stub {| method := add_fn; help := ""; signature := ["object"; "object"; "object"];
              name := "add"; permission := None; args := ["a"; "b"] |} =
  join nl ["{";
           dq ++ "id" ++ dq ++ ": " ++ dq ++ "djangorpc" ++ dq ++ ",";
           dq ++ "method" ++ dq ++ ": " ++ dq ++ "add" ++ dq ++ ",";
           dq ++ "params" ++ dq ++ ": [";
           "   " ++ dq ++ "a" ++ dq ++ "," ++ dq ++ "b" ++ dq;
           "]";
           "}"].
Proof.
  apply (X_get_stub_lists_args
           {| method := add_fn; help := ""; signature := ["object"; "object"; "object"];
              name := "add"; permission := None; args := ["a"; "b"] |}).
  discriminate.
Defined.

(** ** RPCDispatcher.__init__ *)

(** Without [restrict_introspection] the new dispatcher serves the four
    introspection procedures, each with the signature of its decorator
    (the bound method's [self] is dropped, so the lengths match); with it,
    the dispatcher is empty and every help lookup faults. *)
Theorem X_init_introspection (u : string) :
  (exists d, RPCDispatcher_init u false = Ok d /\ url d = u /\
     system_listmethods d =
       ["system.describe"; "system.listMethods"; "system.methodHelp";
        "system.methodSignature"] /\
     system_methodsignature d "system.listMethods" = Ok ["array"] /\
     system_methodsignature d "system.methodHelp" = Ok ["string"; "string"] /\
     system_methodsignature d "system.methodSignature" = Ok ["array"; "string"] /\
     system_methodsignature d "system.describe" = Ok ["struct"]) /\
  (exists d, RPCDispatcher_init u true = Ok d /\ url d = u /\
     system_listmethods d = [] /\
     forall n, system_methodhelp d n = Raise (no_method_fault n)).
Proof.
  split.
  - eexists; split; [reflexivity|]; repeat split; reflexivity.
  - eexists; split; [reflexivity|]; repeat split; reflexivity.
Qed.


